(** * Geometric spot grid trading bot (package [gridtrader])

    A shallow embedding of [gridtrader/utils.py], [gridtrader/validators.py]
    and [gridtrader/grid_bot.py], followed by the properties of the engine.

    Numbers.  Every amount and price of the program is a [decimal.Decimal].
    A [Decimal] is embedded as a rational number of [Q]; every operation is
    exact.  The context precision of 28 significant digits ([getcontext().prec])
    is not part of the model, so a result is the one the program computes as
    long as its intermediate values fit in that many digits.  Two decimals are
    the same number when they are related by [==]; comparisons of the program
    are the boolean comparisons of [Q].

    Power.  The common ratio of the ladder is
    [(upper_price / lower_price) ** (1 / (num_levels - 1))], computed by the
    power function of the decimal library.  For a fractional exponent that
    function is not a rational operation; the ratio is therefore an argument
    [ratio] of the construction.

    Clock.  A [TradeLog] carries [datetime.utcnow()] and a formatted note; both
    are left out of the record, the note being a function of the other fields. *)

From Stdlib Require Import QArith Qround Qpower Lqa Lia ZArith Bool List
  Sorted Permutation String.
Import ListNotations.
Open Scope Q_scope.

(** ** Errors and results *)

(** The program raises [ValueError] everywhere; the constructors name the
    check that raised it and carry the field or asset of the message.
    [DivisionByZero] is the exception of the decimal library for a zero
    divisor. *)
Inductive error : Type :=
| EpsNotPositive
| NotGreaterThanEps (name : string)
| CannotBeNegative (name : string)
| TooFewLevels
| LowerNotBelowUpper
| InitialOutOfRange
| RateMustBeLowerThanOne (name : string)
| PrecisionNegative (name : string)
| InsufficientBalance (asset : string)
| BalanceBecameNegative (asset : string)
| NullTradeResult (asset : string)
| DivisionByZero.

Definition result (A : Type) : Type := (error + A)%type.

Definition ok {A : Type} (a : A) : result A := inr a.
Definition raise {A : Type} (e : error) : result A := inl e.

Definition bind {A B : Type} (r : result A) (k : A -> result B) : result B :=
  match r with
  | inl e => inl e
  | inr a => k a
  end.

Notation "'do' x <- r ; k" := (bind r (fun x => k))
  (at level 10, x name, r at level 100, k at level 200).

(** ** utils.py *)

Definition Qlt_bool (x y : Q) : bool := negb (Qle_bool y x).

(** [min(a, b)] of Python: the first of the smallest arguments. *)
Definition py_min (a b : Q) : Q := if Qlt_bool b a then b else a.

(** The integer part of a rational, rounding toward zero ([ROUND_DOWN]). *)
Definition truncate (v : Q) : Z :=
  if Qle_bool 0 v then Qfloor v else Qceiling v.

(** [Decimal("1").scaleb(-precision)]. *)
Definition quant (precision : Z) : Q := 10 ^ (- precision).

(** [value.quantize(quant, rounding=ROUND_DOWN)]: the multiple of [quant]
    nearest to [value] in the direction of zero. *)
Definition round_decimal (value : Q) (precision : Z) : Q :=
  inject_Z (truncate (value / quant precision)) * quant precision.

Inductive Side : Type := buy | sell.

Record TradeBreakdown : Type := mkTradeBreakdown {
  effective_price : Q;
  quantity : Q;
  fee_paid : Q;
  quote_amount : Q
}.

Definition apply_slippage (level_price slippage_rate : Q) (side : Side) : Q :=
  if Qle_bool slippage_rate 0 then level_price
  else
    let factor := match side with
                  | buy => 1 + slippage_rate
                  | sell => 1 - slippage_rate
                  end in
    level_price * factor.

Definition calculate_fee (amount fee_rate : Q) : Q :=
  if Qle_bool fee_rate 0 then 0 else amount * fee_rate.

Definition execute_buy (quote_amount0 level_price fee_rate slippage_rate : Q)
    (quantity_precision price_precision : Z) : result TradeBreakdown :=
  let effective := apply_slippage level_price slippage_rate buy in
  if Qeq_bool effective 0 then raise DivisionByZero
  else
    let base_without_fee := quote_amount0 / effective in
    let fee := calculate_fee base_without_fee fee_rate in
    let base_after_fee := base_without_fee - fee in
    let qty := round_decimal base_after_fee quantity_precision in
    let quote_consumed := round_decimal quote_amount0 price_precision in
    ok {| effective_price := round_decimal effective price_precision;
          quantity := qty;
          fee_paid := round_decimal fee quantity_precision;
          quote_amount := quote_consumed |}.

Definition execute_sell (base_amount0 level_price fee_rate slippage_rate : Q)
    (quantity_precision price_precision : Z) : TradeBreakdown :=
  let base_amount := round_decimal base_amount0 quantity_precision in
  let effective := apply_slippage level_price slippage_rate sell in
  let quote_without_fee := base_amount * effective in
  let fee := calculate_fee quote_without_fee fee_rate in
  let quote_after_fee := quote_without_fee - fee in
  let amount := round_decimal quote_after_fee price_precision in
  {| effective_price := round_decimal effective price_precision;
     quantity := base_amount;
     fee_paid := round_decimal fee price_precision;
     quote_amount := amount |}.

(** ** validators.py *)

Definition validate_eps (eps : Q) : result Q :=
  if Qle_bool eps 0 then raise EpsNotPositive else ok eps.

Definition validate_positive (value : Q) (name : string) (eps : Q) : result Q :=
  if Qle_bool value eps then raise (NotGreaterThanEps name) else ok value.

Definition validate_non_negative (value : Q) (name : string) (eps : Q)
    : result Q :=
  if Qlt_bool value (- eps) then raise (CannotBeNegative name) else ok value.

Definition validate_bounds (lower_price upper_price : Q) (num_levels : Z)
    (initial_price eps : Q) : result (Q * Q * Q) :=
  do lower <- validate_positive lower_price "lower_price" eps;
  do upper <- validate_positive upper_price "upper_price" eps;
  if (num_levels <? 2)%Z then raise TooFewLevels
  else if Qle_bool upper lower then raise LowerNotBelowUpper
  else
    do init_price <- validate_positive initial_price "initial_price" eps;
    if Qlt_bool init_price (lower - eps) || Qlt_bool (upper + eps) init_price
    then raise InitialOutOfRange
    else ok (lower, upper, init_price).

Definition validate_rate (value : Q) (name : string) : result Q :=
  if Qlt_bool value 0 then raise (CannotBeNegative name)
  else if Qle_bool 1 value then raise (RateMustBeLowerThanOne name)
  else ok value.

Definition validate_precision (precision : Z) (name : string) : result Z :=
  if (precision <? 0)%Z then raise (PrecisionNegative name) else ok precision.

Definition ensure_sufficient_balance (balance required : Q) (asset : string)
    (eps : Q) : result unit :=
  if Qlt_bool (balance + eps) required then raise (InsufficientBalance asset)
  else ok tt.

Definition ensure_non_negative_balance (balance : Q) (asset : string) (eps : Q)
    : result unit :=
  if Qlt_bool balance (- eps) then raise (BalanceBecameNegative asset)
  else ok tt.

Definition ensure_trade_result (qty : Q) (asset : string) (eps : Q)
    : result unit :=
  if Qle_bool qty eps then raise (NullTradeResult asset) else ok tt.

(** ** grid_bot.py: the data model *)

(** The [status] string of a level, ["quote"] or ["base"]. *)
Inductive Status : Type := quote | base.

Record GridLevel : Type := mkGridLevel {
  price : Q;
  status : Status;
  quote_budget : Q;
  base_position : Q;
  last_action : option Side
}.

Record TradeLog : Type := mkTradeLog {
  side : Side;
  level_price : Q;
  execution_price : Q;
  log_quantity : Q;
  log_quote_amount : Q;
  log_fee_paid : Q
}.

Record GridTradingBotGeomSpot : Type := mkBot {
  base_asset : string;
  quote_asset : string;
  num_levels : Z;
  lower_price : Q;
  upper_price : Q;
  initial_price : Q;
  base_balance : Q;
  quote_balance : Q;
  fee_rate : Q;
  slippage_rate : Q;
  price_precision : Z;
  quantity_precision : Z;
  eps : Q;
  levels : list GridLevel;
  trade_history : list TradeLog
}.

Definition Bot : Type := GridTradingBotGeomSpot.

Definition set_levels (self : Bot) (ls : list GridLevel) : Bot :=
  mkBot (base_asset self) (quote_asset self) (num_levels self)
    (lower_price self) (upper_price self) (initial_price self)
    (base_balance self) (quote_balance self) (fee_rate self)
    (slippage_rate self) (price_precision self) (quantity_precision self)
    (eps self) ls (trade_history self).

(** The assignments of balances and the [append] to the history made by one
    execution. *)
Definition settle (self : Bot) (new_base new_quote : Q) (log : TradeLog) : Bot :=
  mkBot (base_asset self) (quote_asset self) (num_levels self)
    (lower_price self) (upper_price self) (initial_price self)
    new_base new_quote (fee_rate self)
    (slippage_rate self) (price_precision self) (quantity_precision self)
    (eps self) (levels self) (trade_history self ++ [log]).

(** ** grid_bot.py: construction *)

(** The allocation dictionaries, keyed by price.  A later binding of a key
    hides the earlier ones, as an assignment to an existing key does. *)
Definition dict : Type := list (Q * Q).

Definition dict_set (key value : Q) (d : dict) : dict := (key, value) :: d.

Fixpoint dict_get (key : Q) (d : dict) (default : Q) : Q :=
  match d with
  | [] => default
  | (k, v) :: rest => if Qeq_bool k key then v else dict_get key rest default
  end.

(** The loop that fills [prices]: [n] prices starting from [p]. *)
Fixpoint ladder (n : nat) (p ratio : Q) : list Q :=
  match n with
  | O => []
  | S k => p :: ladder k (p * ratio) ratio
  end.

(** One allocation loop of [_build_levels], from position [index] on. *)
Fixpoint allocate (precision : Z) (total index : nat) (remaining : Q)
    (allocations : dict) (lvls : list Q) : Q * dict :=
  match lvls with
  | [] => (remaining, allocations)
  | lvl :: rest =>
      if (total =? 0)%nat then (remaining, allocations)
      else
        let levels_left := (total - index)%nat in
        let allocation :=
          if (levels_left =? 0)%nat then 0
          else remaining / inject_Z (Z.of_nat levels_left) in
        let allocation := round_decimal allocation precision in
        let allocation := py_min allocation remaining in
        allocate precision total (S index) (remaining - allocation)
          (dict_set lvl allocation allocations) rest
  end.

Definition seeded_base (self : Bot) (p : Q) : bool :=
  Qle_bool p (initial_price self + eps self).

Definition make_level (self : Bot) (base_allocations quote_allocations : dict)
    (p : Q) : GridLevel :=
  if seeded_base self p then
    {| price := round_decimal p (price_precision self);
       status := base;
       quote_budget := 0;
       base_position := dict_get p base_allocations 0;
       last_action := None |}
  else
    {| price := round_decimal p (price_precision self);
       status := quote;
       quote_budget := dict_get p quote_allocations 0;
       base_position := 0;
       last_action := None |}.

Definition ladder_prices (self : Bot) (ratio : Q) : list Q :=
  ladder (Z.to_nat (num_levels self)) (lower_price self) ratio.

Definition base_levels (self : Bot) (prices : list Q) : list Q :=
  filter (seeded_base self) prices.

Definition quote_levels (self : Bot) (prices : list Q) : list Q :=
  filter (fun p => negb (seeded_base self p)) prices.

Definition _build_levels (ratio : Q) (self : Bot) : Bot :=
  let prices := ladder_prices self ratio in
  let bl := base_levels self prices in
  let ql := quote_levels self prices in
  let base_allocations :=
    snd (allocate (quantity_precision self) (List.length bl) 0
           (base_balance self) [] bl) in
  let quote_allocations :=
    snd (allocate (price_precision self) (List.length ql) 0
           (quote_balance self) [] ql) in
  set_levels self (map (make_level self base_allocations quote_allocations) prices).

(** [__post_init__]: the validations, in the order of the source, then the
    ladder. *)
Definition post_init (ratio : Q) (self : Bot) : result Bot :=
  do eps' <- validate_eps (eps self);
  do bounds <- validate_bounds (lower_price self) (upper_price self)
                 (num_levels self) (initial_price self) eps';
  let '(lower, upper, init_price) := bounds in
  do base_balance' <- validate_non_negative (base_balance self) "base_balance" eps';
  do quote_balance' <- validate_non_negative (quote_balance self) "quote_balance" eps';
  do fee_rate' <- validate_rate (fee_rate self) "fee_rate";
  do slippage_rate' <- validate_rate (slippage_rate self) "slippage_rate";
  do price_precision' <- validate_precision (price_precision self) "price_precision";
  do quantity_precision' <- validate_precision (quantity_precision self) "quantity_precision";
  ok (_build_levels ratio
        (mkBot (base_asset self) (quote_asset self) (num_levels self)
           lower upper init_price base_balance' quote_balance'
           fee_rate' slippage_rate' price_precision' quantity_precision'
           eps' (levels self) (trade_history self))).

(** ** grid_bot.py: executions and the tick *)

(** [_execute_buy] and [_execute_sell] assign to fields of [self] and of the
    level they are given, which is an element of [self.levels].  The functions
    return the new [self] (its [levels] untouched) and the new level; the loop
    that calls them puts the level back in its place. *)
Definition _execute_buy (self : Bot) (level : GridLevel)
    : result (Bot * GridLevel) :=
  let amount := quote_budget level in
  if Qle_bool amount (eps self) then ok (self, level)
  else
    do _ <- ensure_sufficient_balance (quote_balance self) amount
              (quote_asset self) (eps self);
    do trade <- execute_buy amount (price level) (fee_rate self)
                  (slippage_rate self) (quantity_precision self)
                  (price_precision self);
    do _ <- ensure_trade_result (quantity trade) (base_asset self) (eps self);
    ok (settle self
          (base_balance self + quantity trade)
          (quote_balance self - quote_amount trade)
          {| side := buy;
             level_price := price level;
             execution_price := effective_price trade;
             log_quantity := quantity trade;
             log_quote_amount := quote_amount trade;
             log_fee_paid := fee_paid trade |},
        {| price := price level;
           status := base;
           quote_budget := 0;
           base_position := quantity trade;
           last_action := Some buy |}).

Definition _execute_sell (self : Bot) (level : GridLevel)
    : result (Bot * GridLevel) :=
  let amount := base_position level in
  if Qle_bool amount (eps self) then ok (self, level)
  else
    do _ <- ensure_sufficient_balance (base_balance self) amount
              (base_asset self) (eps self);
    let trade := execute_sell amount (price level) (fee_rate self)
                   (slippage_rate self) (quantity_precision self)
                   (price_precision self) in
    do _ <- ensure_trade_result (quote_amount trade) (quote_asset self) (eps self);
    ok (settle self
          (base_balance self - quantity trade)
          (quote_balance self + quote_amount trade)
          {| side := sell;
             level_price := price level;
             execution_price := effective_price trade;
             log_quantity := quantity trade;
             log_quote_amount := quote_amount trade;
             log_fee_paid := fee_paid trade |},
        {| price := price level;
           status := quote;
           quote_budget := quote_amount trade;
           base_position := 0;
           last_action := Some sell |}).

Definition buy_due (self : Bot) (current_price : Q) (level : GridLevel) : bool :=
  match status level with
  | quote => Qle_bool current_price (price level + eps self)
  | base => false
  end.

Definition sell_due (self : Bot) (current_price : Q) (level : GridLevel) : bool :=
  match status level with
  | base => Qle_bool (price level - eps self) current_price
  | quote => false
  end.

Definition buy_body (current_price : Q) (self : Bot) (level : GridLevel)
    : result (Bot * GridLevel) :=
  if buy_due self current_price level then _execute_buy self level
  else ok (self, level).

Definition sell_body (current_price : Q) (self : Bot) (level : GridLevel)
    : result (Bot * GridLevel) :=
  if sell_due self current_price level then _execute_sell self level
  else ok (self, level).

(** A [for level in ...] loop over levels that are mutated in place.  When
    the body raises, the loop stops: the levels already visited keep their
    new fields, the one that raised and the ones after it are as they were. *)
Fixpoint for_each (body : Bot -> GridLevel -> result (Bot * GridLevel))
    (self : Bot) (ls : list GridLevel) : option error * Bot * list GridLevel :=
  match ls with
  | [] => (None, self, [])
  | level :: rest =>
      match body self level with
      | inl e => (Some e, self, level :: rest)
      | inr (self', level') =>
          let '(r, self'', rest') := for_each body self' rest in
          (r, self'', level' :: rest')
      end
  end.

(** What a call leaves behind: it returns, or it raises; in both cases the
    object is in the state [s]. *)
Inductive outcome : Type :=
| Returned (s : Bot)
| Raised (e : error) (s : Bot).

Definition and_then (o : outcome) (k : Bot -> outcome) : outcome :=
  match o with
  | Returned s => k s
  | Raised e s => Raised e s
  end.

Definition finish (r : option error) (s : Bot) : outcome :=
  match r with
  | None => Returned s
  | Some e => Raised e s
  end.

(** [for level in self.levels: if ...: self._execute_buy(level)] *)
Definition buy_pass (current_price : Q) (self : Bot) : outcome :=
  let '(r, s, ls) := for_each (buy_body current_price) self (levels self) in
  finish r (set_levels s ls).

(** [for level in reversed(self.levels): if ...: self._execute_sell(level)] *)
Definition sell_pass (current_price : Q) (self : Bot) : outcome :=
  let '(r, s, ls) := for_each (sell_body current_price) self (rev (levels self)) in
  finish r (set_levels s (rev ls)).

Definition final_checks (self : Bot) : outcome :=
  match ensure_non_negative_balance (base_balance self) (base_asset self) (eps self) with
  | inl e => Raised e self
  | inr _ =>
      match ensure_non_negative_balance (quote_balance self) (quote_asset self) (eps self) with
      | inl e => Raised e self
      | inr _ => Returned self
      end
  end.

Definition on_price_tick (self : Bot) (tick : Q) : outcome :=
  match validate_positive tick "market_price" (eps self) with
  | inl e => Raised e self
  | inr current_price =>
      and_then (buy_pass current_price self) (fun s1 =>
      and_then (sell_pass current_price s1) final_checks)
  end.


(** ** Reachable states *)

(** The engine after construction and after any number of ticks.  A tick that
    raises leaves the engine in the state it had reached, and the caller may
    go on with it. *)
Inductive reachable (ratio : Q) (cfg : Bot) : Bot -> Prop :=
| reach_init : forall s, post_init ratio cfg = inr s -> reachable ratio cfg s
| reach_tick : forall s tick s',
    reachable ratio cfg s -> on_price_tick s tick = Returned s' ->
    reachable ratio cfg s'
| reach_raise : forall s tick e s',
    reachable ratio cfg s -> on_price_tick s tick = Raised e s' ->
    reachable ratio cfg s'.

(** ** Totals over the levels *)

Definition Qsum (l : list Q) : Q := fold_right Qplus 0 l.

(** What a level adds to the total of [base_position] over the levels whose
    status is [base], and to the total of [quote_budget] over the levels whose
    status is [quote]. *)
Definition base_part (l : GridLevel) : Q :=
  match status l with
  | base => base_position l
  | quote => 0
  end.


Definition held_base (ls : list GridLevel) : Q := Qsum (map base_part ls).


(** [x] is an integer multiple of [10^(-precision)]. *)
Definition multiple_of_quant (precision : Z) (x : Q) : Prop :=
  exists k : Z, x == inject_Z k * quant precision.

(** ** Notions used in the statements and in the proofs *)

(** The allocation made when [left] levels are still to be served. *)
Definition share_of (precision : Z) (left : nat) (remaining : Q) : Q :=
  py_min (round_decimal (remaining / inject_Z (Z.of_nat left)) precision)
    remaining.

(** The allocations of one loop, in the order they are made, and what is
    left of the balance after the last of them. *)
Fixpoint shares (precision : Z) (left : nat) (remaining : Q) : list Q :=
  match left with
  | O => []
  | S k =>
      share_of precision (S k) remaining
      :: shares precision k (remaining - share_of precision (S k) remaining)
  end.

Fixpoint leftover (precision : Z) (left : nat) (remaining : Q) : Q :=
  match left with
  | O => remaining
  | S k => leftover precision k (remaining - share_of precision (S k) remaining)
  end.

(** Bindings with the same key have the same value. *)
Definition functional (d : dict) : Prop :=
  forall k1 v1 k2 v2,
    In (k1, v1) d -> In (k2, v2) d -> k1 == k2 -> v1 = v2.

(** What the validations of [__post_init__] establish. *)
Definition valid_config (cfg : Bot) : Prop :=
  0 < eps cfg /\
  eps cfg < lower_price cfg /\
  (2 <= num_levels cfg)%Z /\
  lower_price cfg < upper_price cfg /\
  eps cfg < initial_price cfg /\
  lower_price cfg - eps cfg <= initial_price cfg /\
  initial_price cfg <= upper_price cfg + eps cfg /\
  - eps cfg <= base_balance cfg /\
  - eps cfg <= quote_balance cfg /\
  (0 <= fee_rate cfg /\ fee_rate cfg < 1) /\
  (0 <= slippage_rate cfg /\ slippage_rate cfg < 1) /\
  (0 <= price_precision cfg)%Z /\
  (0 <= quantity_precision cfg)%Z.

(** Case analysis on the next test of a validation. *)
Ltac split_test :=
  match goal with
  | H : context [if ?b then _ else _] |- _ => destruct b eqn:?
  end.

(** The balance left unallocated by the two loops of [_build_levels]: the
    final values of [remaining_base] and [remaining_quote]. *)
Definition base_dust (ratio : Q) (cfg : Bot) : Q :=
  fst (allocate (quantity_precision cfg)
         (List.length (base_levels cfg (ladder_prices cfg ratio))) 0
         (base_balance cfg) [] (base_levels cfg (ladder_prices cfg ratio))).


(** The engine and the level as an executed buy, respectively sell, leaves
    them, and the [TradeBreakdown] the execution works with. *)
Definition bought (self : Bot) (level : GridLevel) (trade : TradeBreakdown)
    : Bot * GridLevel :=
  (settle self
     (base_balance self + quantity trade)
     (quote_balance self - quote_amount trade)
     {| side := buy;
        level_price := price level;
        execution_price := effective_price trade;
        log_quantity := quantity trade;
        log_quote_amount := quote_amount trade;
        log_fee_paid := fee_paid trade |},
   {| price := price level;
      status := base;
      quote_budget := 0;
      base_position := quantity trade;
      last_action := Some buy |}).

Definition sold (self : Bot) (level : GridLevel) (trade : TradeBreakdown)
    : Bot * GridLevel :=
  (settle self
     (base_balance self - quantity trade)
     (quote_balance self + quote_amount trade)
     {| side := sell;
        level_price := price level;
        execution_price := effective_price trade;
        log_quantity := quantity trade;
        log_quote_amount := quote_amount trade;
        log_fee_paid := fee_paid trade |},
   {| price := price level;
      status := quote;
      quote_budget := quote_amount trade;
      base_position := 0;
      last_action := Some sell |}).

Definition sell_trade (self : Bot) (level : GridLevel) : TradeBreakdown :=
  execute_sell (base_position level) (price level) (fee_rate self)
    (slippage_rate self) (quantity_precision self) (price_precision self).

Definition buy_trade (self : Bot) (level : GridLevel) : result TradeBreakdown :=
  execute_buy (quote_budget level) (price level) (fee_rate self)
    (slippage_rate self) (quantity_precision self) (price_precision self).

(** The fields set at construction and never assigned afterwards. *)
Definition same_config (c s : Bot) : Prop :=
  base_asset s = base_asset c /\ quote_asset s = quote_asset c /\
  num_levels s = num_levels c /\ lower_price s = lower_price c /\
  upper_price s = upper_price c /\ initial_price s = initial_price c /\
  fee_rate s = fee_rate c /\ slippage_rate s = slippage_rate c /\
  price_precision s = price_precision c /\
  quantity_precision s = quantity_precision c /\ eps s = eps c.

(** What holds of every level of a reachable engine. *)
Definition level_ok (pp qp : Z) (l : GridLevel) : Prop :=
  0 <= price l /\
  (status l = quote -> base_position l = 0) /\
  (status l = base -> quote_budget l = 0) /\
  (0 < base_position l -> multiple_of_quant qp (base_position l)) /\
  (0 < quote_budget l -> multiple_of_quant pp (quote_budget l)).

(** The loop invariant: [c] is the configuration, [d] the unallocated base
    balance. *)
Definition loop_inv (c : Bot) (d : Q) (s : Bot) (ls : list GridLevel) : Prop :=
  same_config c s /\
  Forall (level_ok (price_precision c) (quantity_precision c)) ls /\
  base_balance s - held_base ls == d.

Definition engine_inv (c : Bot) (d : Q) (s : Bot) : Prop :=
  loop_inv c d s (levels s).




(** What the body of a loop does with one level when it does not raise: the
    level it leaves, the records it appends and what it adds to the two
    balances. *)
Record effect : Type := mkEffect {
  new_level : GridLevel;
  records : list TradeLog;
  base_delta : Q;
  quote_delta : Q
}.

Definition no_effect (l : GridLevel) : effect :=
  {| new_level := l; records := []; base_delta := 0; quote_delta := 0 |}.

Definition buy_effect (c : Bot) (cp : Q) (l : GridLevel) : effect :=
  if buy_due c cp l && negb (Qle_bool (quote_budget l) (eps c)) then
    match buy_trade c l with
    | inr trade =>
        {| new_level := snd (bought c l trade);
           records := [{| side := buy;
                          level_price := price l;
                          execution_price := effective_price trade;
                          log_quantity := quantity trade;
                          log_quote_amount := quote_amount trade;
                          log_fee_paid := fee_paid trade |}];
           base_delta := quantity trade;
           quote_delta := - quote_amount trade |}
    | inl _ => no_effect l
    end
  else no_effect l.

Definition sell_effect (c : Bot) (cp : Q) (l : GridLevel) : effect :=
  if sell_due c cp l && negb (Qle_bool (base_position l) (eps c)) then
    {| new_level := snd (sold c l (sell_trade c l));
       records := [{| side := sell;
                      level_price := price l;
                      execution_price := effective_price (sell_trade c l);
                      log_quantity := quantity (sell_trade c l);
                      log_quote_amount := quote_amount (sell_trade c l);
                      log_fee_paid := fee_paid (sell_trade c l) |}];
       base_delta := - quantity (sell_trade c l);
       quote_delta := quote_amount (sell_trade c l) |}
  else no_effect l.

(** The body of a loop, seen through its effect. *)
Definition has_effect (s : Bot) (f : effect) (s' : Bot) (l' : GridLevel)
    : Prop :=
  l' = new_level f /\
  trade_history s' = trade_history s ++ records f /\
  base_balance s' == base_balance s + base_delta f /\
  quote_balance s' == quote_balance s + quote_delta f.


(** ** Notions used in the further properties *)

(** The part of an amount that is below zero. *)
Definition neg_part (x : Q) : Q := if Qlt_bool x 0 then x else 0.







(** What a tick leaves alone, against the engine [s0] it started from: the
    configuration, the prices of the levels, and the trade records already
    there. *)
Definition tick_frame (s0 s : Bot) (ls : list GridLevel) : Prop :=
  same_config s0 s /\
  map price ls = map price (levels s0) /\
  exists new, trade_history s = trade_history s0 ++ new.







(** What the last action of a level says about the level. *)
Definition action_ok (e : Q) (l : GridLevel) : Prop :=
  (last_action l = Some buy -> status l = base /\ e < base_position l) /\
  (last_action l = Some sell -> status l = quote /\ e < quote_budget l).

(** ** Concrete engines *)

(** A configuration with the assets BTC/USDT, no fee, no slippage and the
    default [eps = 1e-9]. *)
Definition sample (n : Z) (lower upper initial base_bal quote_bal : Q)
    (pp qp : Z) : Bot :=
  {| base_asset := "BTC"; quote_asset := "USDT"; num_levels := n;
     lower_price := lower; upper_price := upper; initial_price := initial;
     base_balance := base_bal; quote_balance := quote_bal;
     fee_rate := 0; slippage_rate := 0;
     price_precision := pp; quantity_precision := qp;
     eps := 1 # 1000000000;
     levels := []; trade_history := [] |}.

(** The engine constructed from a configuration that passes the validations,
    and the engine a call leaves behind. *)
Definition built (ratio : Q) (cfg : Bot) : Bot :=
  match post_init ratio cfg with
  | inr s => s
  | inl _ => cfg
  end.

Definition state_of (o : outcome) : Bot :=
  match o with
  | Returned s => s
  | Raised _ s => s
  end.


(** Levels 100, 200 and 400, the first seeded with base, the others with
    quote; [grid_level] is the level at 200. *)
Definition cfg_grid : Bot := sample 3 100 400 150 3 1000 2 6.

(** The engine of [cfg_grid] after a tick at 250, and its level at 400. *)
Definition grid_after : Bot :=
  state_of (on_price_tick (built 2 cfg_grid) 250).

Definition grid_top_after : GridLevel :=
  nth 2 (levels grid_after) (mkGridLevel 0 quote 0 0 None).


(** No base asset at all. *)
Definition cfg_empty : Bot := sample 2 100 200 100 0 1000 2 8.

Definition grid_level : GridLevel :=
  nth 1 (levels (built 2 cfg_grid)) (mkGridLevel 0 quote 0 0 None).







(** Levels 0.5, 1 and 2 with quantities in whole units: a budget of 1 buys
    one unit at the level 1 and nothing at the level 2.  [null_prefix] is the
    engine and the first two levels after the buy loop has visited them at the
    price 0.75. *)
Definition cfg_null : Bot := sample 3 (1 # 2) 2 (1 # 2) 3 2 2 0.

Definition null_prefix : Bot * list GridLevel :=
  let '(_, s1, pre1) :=
    for_each (buy_body (3 # 4)) (built 2 cfg_null)
      (firstn 2 (levels (built 2 cfg_null))) in
  (s1, pre1).



(** ** Comparisons *)

Lemma Qle_bool_false (x y : Q) : Qle_bool x y = false -> y < x.
Proof.
  intro H. apply Qnot_le_lt. intro L.
  apply Qle_bool_iff in L. congruence.
Qed.

Lemma Qlt_bool_true (x y : Q) : Qlt_bool x y = true -> x < y.
Proof.
  unfold Qlt_bool. intro H. apply negb_true_iff in H.
  now apply Qle_bool_false.
Qed.

Lemma Qlt_bool_false (x y : Q) : Qlt_bool x y = false -> y <= x.
Proof.
  unfold Qlt_bool. intro H. apply negb_false_iff in H.
  now apply Qle_bool_iff.
Qed.

Lemma Qle_bool_intro (x y : Q) : x <= y -> Qle_bool x y = true.
Proof. apply Qle_bool_iff. Qed.

Lemma Qle_bool_lt (x y : Q) : y < x -> Qle_bool x y = false.
Proof.
  intro H. destruct (Qle_bool x y) eqn:E; [|reflexivity].
  apply Qle_bool_iff in E. lra.
Qed.

(** ** Rounding down *)

Lemma quant_pos (p : Z) : 0 < quant p.
Proof. unfold quant. apply Qpower_0_lt. reflexivity. Qed.

Lemma truncate_comp (x y : Q) : x == y -> truncate x = truncate y.
Proof.
  intro E. unfold truncate. rewrite (Qleb_comp 0 0 (Qeq_refl 0) x y E).
  rewrite (Qfloor_comp x y E), (Qceiling_comp x y E). reflexivity.
Qed.


Lemma truncate_nonneg (x : Q) :
  0 <= x -> inject_Z (truncate x) <= x /\ x < inject_Z (truncate x) + 1.
Proof.
  intro H. unfold truncate. rewrite (Qle_bool_intro _ _ H). split.
  - apply Qfloor_le.
  - pose proof (Qlt_floor x) as L. rewrite inject_Z_plus in L. exact L.
Qed.

Lemma truncate_nonneg_sign (x : Q) : 0 <= x -> 0 <= inject_Z (truncate x).
Proof.
  intro H. unfold truncate. rewrite (Qle_bool_intro _ _ H).
  change 0 with (inject_Z 0). rewrite <- Zle_Qle.
  rewrite <- (Qfloor_Z 0). apply Qfloor_resp_le. exact H.
Qed.

Lemma truncate_neg (x : Q) :
  x < 0 -> x <= inject_Z (truncate x) /\ inject_Z (truncate x) <= 0.
Proof.
  intro H. unfold truncate. rewrite (Qle_bool_lt _ _ H). split.
  - apply Qle_ceiling.
  - change 0 with (inject_Z 0). rewrite <- Zle_Qle.
    rewrite <- (Qceiling_Z 0). apply Qceiling_resp_le.
    change (inject_Z 0) with 0. lra.
Qed.

Lemma truncate_inject (k : Z) : truncate (inject_Z k) = k.
Proof.
  unfold truncate. destruct (Qle_bool 0 (inject_Z k)).
  - apply Qfloor_Z.
  - apply Qceiling_Z.
Qed.

Lemma div_quant (x : Q) (p : Z) : x / quant p * quant p == x.
Proof. pose proof (quant_pos p). field. lra. Qed.

Lemma round_decimal_nonneg (x : Q) (p : Z) :
  0 <= x ->
  0 <= round_decimal x p /\ round_decimal x p <= x /\
  x - round_decimal x p < quant p.
Proof.
  intro H. pose proof (quant_pos p) as Hq. pose proof (div_quant x p) as E.
  assert (Hx : 0 <= x / quant p).
  { apply Qle_shift_div_l; lra. }
  destruct (truncate_nonneg _ Hx) as [L U].
  pose proof (truncate_nonneg_sign _ Hx) as S.
  unfold round_decimal.
  set (t := inject_Z (truncate (x / quant p))) in *.
  set (y := x / quant p) in *.
  repeat split; nra.
Qed.

Lemma round_decimal_neg (x : Q) (p : Z) :
  x < 0 -> x <= round_decimal x p /\ round_decimal x p <= 0.
Proof.
  intro H. pose proof (quant_pos p) as Hq. pose proof (div_quant x p) as E.
  assert (Hx : x / quant p < 0).
  { apply Qlt_shift_div_r; lra. }
  destruct (truncate_neg _ Hx) as [L U].
  unfold round_decimal.
  set (t := inject_Z (truncate (x / quant p))) in *.
  set (y := x / quant p) in *.
  split; nra.
Qed.

Lemma round_decimal_is_multiple (x : Q) (p : Z) :
  multiple_of_quant p (round_decimal x p).
Proof. exists (truncate (x / quant p)). reflexivity. Qed.

Lemma round_decimal_of_multiple (x : Q) (p : Z) :
  multiple_of_quant p x -> round_decimal x p == x.
Proof.
  intros [k E]. pose proof (quant_pos p) as Hq. unfold round_decimal.
  rewrite (truncate_comp (x / quant p) (inject_Z k)).
  - rewrite truncate_inject. symmetry. exact E.
  - rewrite E. field. lra.
Qed.


(** ** The allocation loop *)

Lemma allocate_spec (precision : Z) (lvls : list Q) :
  forall (total index : nat) (remaining : Q) (d : dict),
    total = (index + List.length lvls)%nat ->
    allocate precision total index remaining d lvls =
    (leftover precision (List.length lvls) remaining,
     rev (combine lvls (shares precision (List.length lvls) remaining)) ++ d).
Proof.
  induction lvls as [|lvl rest IH]; intros total index remaining d Ht.
  - reflexivity.
  - cbn [allocate List.length shares leftover combine rev].
    cbn [List.length] in Ht.
    assert (E0 : (total =? 0)%nat = false) by (apply Nat.eqb_neq; lia).
    assert (E1 : (total - index)%nat = S (List.length rest)) by lia.
    rewrite E0, E1.
    change (S (List.length rest) =? 0)%nat with false. cbv iota.
    fold (share_of precision (S (List.length rest)) remaining).
    rewrite (IH total (S index)) by lia.
    rewrite <- app_assoc. reflexivity.
Qed.

Lemma inject_nat_ge_1 (n : nat) : (1 <= n)%nat -> 1 <= inject_Z (Z.of_nat n).
Proof.
  intro H. change 1 with (inject_Z 1). rewrite <- Zle_Qle. lia.
Qed.

Lemma py_min_le (a b : Q) : a <= b -> py_min a b = a.
Proof.
  intro H. unfold py_min. destruct (Qlt_bool b a) eqn:E; [|reflexivity].
  apply Qlt_bool_true in E. lra.
Qed.

Lemma py_min_ge (a b : Q) : b <= a -> py_min a b == b.
Proof.
  intro H. unfold py_min. destruct (Qlt_bool b a) eqn:E; [reflexivity|].
  apply Qlt_bool_false in E. lra.
Qed.

Lemma share_of_nonneg (precision : Z) (left : nat) (remaining : Q) :
  (1 <= left)%nat -> 0 <= remaining ->
  share_of precision left remaining =
    round_decimal (remaining / inject_Z (Z.of_nat left)) precision /\
  0 <= share_of precision left remaining /\
  share_of precision left remaining <= remaining.
Proof.
  intros Hl Hr. pose proof (inject_nat_ge_1 left Hl) as Hn.
  set (n := inject_Z (Z.of_nat left)) in *.
  assert (Hq : 0 <= remaining / n) by (apply Qle_shift_div_l; lra).
  assert (Hq' : remaining / n <= remaining).
  { apply Qle_shift_div_r; [lra|]. nra. }
  destruct (round_decimal_nonneg (remaining / n) precision Hq) as (A & B & _).
  unfold share_of. fold n. rewrite py_min_le by lra. repeat split; lra.
Qed.

Lemma share_of_neg (precision : Z) (left : nat) (remaining : Q) :
  (1 <= left)%nat -> remaining < 0 ->
  share_of precision left remaining == remaining.
Proof.
  intros Hl Hr. pose proof (inject_nat_ge_1 left Hl) as Hn.
  set (n := inject_Z (Z.of_nat left)) in *.
  assert (Hq : remaining / n < 0) by (apply Qlt_shift_div_r; lra).
  assert (Hq' : remaining <= remaining / n).
  { apply Qle_shift_div_l; [lra|]. nra. }
  destruct (round_decimal_neg (remaining / n) precision Hq) as (A & _).
  unfold share_of. fold n. apply py_min_ge. lra.
Qed.



Lemma shares_sum (precision : Z) (left : nat) :
  forall remaining,
    Qsum (shares precision left remaining) + leftover precision left remaining
    == remaining.
Proof.
  induction left as [|k IH]; intro remaining.
  - cbn. lra.
  - cbn [shares leftover Qsum fold_right].
    fold (Qsum (shares precision k
                  (remaining - share_of precision (S k) remaining))).
    pose proof (IH (remaining - share_of precision (S k) remaining)). lra.
Qed.



Lemma share_of_quantized (precision : Z) (left : nat) (remaining : Q) :
  (1 <= left)%nat -> 0 < share_of precision left remaining ->
  multiple_of_quant precision (share_of precision left remaining).
Proof.
  intros Hl Hs. destruct (Qlt_le_dec remaining 0) as [Hneg|Hpos].
  - pose proof (share_of_neg precision left remaining Hl Hneg). lra.
  - destruct (share_of_nonneg precision left remaining Hl Hpos) as (E & _).
    rewrite E. apply round_decimal_is_multiple.
Qed.

Lemma shares_quantized (precision : Z) (left : nat) :
  forall remaining,
    Forall (fun a => 0 < a -> multiple_of_quant precision a)
      (shares precision left remaining).
Proof.
  induction left as [|k IH]; intro remaining; cbn [shares]; constructor.
  - apply share_of_quantized. lia.
  - apply IH.
Qed.


(** ** Sums *)

Lemma Qsum_app (a b : list Q) : Qsum (a ++ b) == Qsum a + Qsum b.
Proof.
  unfold Qsum. induction a as [|x a IH]; simpl.
  - ring.
  - rewrite IH. ring.
Qed.

Lemma Qsum_rev (a : list Q) : Qsum (rev a) == Qsum a.
Proof.
  induction a as [|x a IH]; cbn [rev]; [reflexivity|].
  rewrite Qsum_app, IH. unfold Qsum. simpl. ring.
Qed.

Lemma held_base_app (a b : list GridLevel) :
  held_base (a ++ b) == held_base a + held_base b.
Proof. unfold held_base. rewrite map_app. apply Qsum_app. Qed.

Lemma held_base_cons (l : GridLevel) (r : list GridLevel) :
  held_base (l :: r) == base_part l + held_base r.
Proof. reflexivity. Qed.

Lemma held_base_rev (a : list GridLevel) : held_base (rev a) == held_base a.
Proof. unfold held_base. rewrite map_rev. apply Qsum_rev. Qed.

(** ** The ladder and the dictionaries *)

Lemma ladder_above (n : nat) (r : Q) :
  1 < r -> forall p, 0 < p -> Forall (fun x => p <= x) (ladder n p r).
Proof.
  intro Hr. induction n as [|k IH]; intros p Hp; cbn [ladder]; constructor.
  - lra.
  - assert (Hpr : p < p * r) by nra.
    eapply Forall_impl; [|apply (IH (p * r)); lra].
    cbn. intros x Hx. lra.
Qed.

Lemma ladder_sorted (n : nat) (r : Q) :
  1 < r -> forall p, 0 < p -> StronglySorted Qlt (ladder n p r).
Proof.
  intro Hr. induction n as [|k IH]; intros p Hp; cbn [ladder]; constructor.
  - apply IH. nra.
  - assert (Hpr : p < p * r) by nra.
    eapply Forall_impl; [|apply (ladder_above k r Hr (p * r)); lra].
    cbn. intros x Hx. lra.
Qed.


Lemma sorted_filter (f : Q -> bool) (l : list Q) :
  StronglySorted Qlt l -> StronglySorted Qlt (filter f l).
Proof.
  induction 1 as [|x l S IH F]; cbn [filter]; [constructor|].
  destruct (f x); [|exact IH].
  constructor; [exact IH|].
  rewrite Forall_forall in *. intros y Hy.
  apply filter_In in Hy. now apply F.
Qed.

Lemma dict_get_in (d : dict) (k v default : Q) :
  functional d -> In (k, v) d -> dict_get k d default = v.
Proof.
  induction d as [|[k0 v0] rest IH]; intros F Hin; [contradiction|].
  cbn [dict_get]. destruct (Qeq_bool k0 k) eqn:E.
  - apply Qeq_bool_iff in E.
    apply (F k0 v0 k v); [now left|exact Hin|exact E].
  - destruct Hin as [Hh|Ht].
    + inversion Hh; subst. rewrite (proj2 (Qeq_bool_iff k k)) in E by reflexivity.
      discriminate.
    + apply IH; [|exact Ht]. intros a b c e Ha Hc. apply F; now right.
Qed.

Lemma dict_get_Forall (P : Q -> Prop) (d : dict) (k default : Q) :
  P default -> (forall k' v, In (k', v) d -> P v) ->
  P (dict_get k d default).
Proof.
  intro Hd. induction d as [|[k0 v0] rest IH]; intro H; [exact Hd|].
  cbn [dict_get]. destruct (Qeq_bool k0 k).
  - apply (H k0 v0). now left.
  - apply IH. intros k' v Hin. apply (H k' v). now right.
Qed.

Lemma combine_functional (keys vals : list Q) :
  StronglySorted Qlt keys -> functional (combine keys vals).
Proof.
  intro S. revert vals.
  induction S as [|k keys S IH F]; intros vals; [intros ? ? ? ? []|].
  destruct vals as [|v vals]; [intros ? ? ? ? []|].
  cbn [combine]. rewrite Forall_forall in F.
  intros k1 v1 k2 v2 [H1|H1] [H2|H2] E.
  - congruence.
  - inversion H1; subst. apply in_combine_l in H2. apply F in H2. lra.
  - inversion H2; subst. apply in_combine_l in H1. apply F in H1. lra.
  - apply (IH vals k1 v1 k2 v2); assumption.
Qed.

Lemma functional_rev (d : dict) : functional d -> functional (rev d ++ []).
Proof.
  intros F k1 v1 k2 v2 H1 H2. rewrite app_nil_r in *.
  apply in_rev in H1. apply in_rev in H2. now apply F.
Qed.

Lemma shares_length (precision : Z) (left : nat) :
  forall remaining, List.length (shares precision left remaining) = left.
Proof.
  induction left as [|k IH]; intro remaining; cbn [shares List.length];
    [reflexivity|]. now rewrite IH.
Qed.

(** Reading the dictionary back at the keys it was filled from gives the
    allocations, provided the keys are pairwise different. *)
Lemma lookup_all (d : dict) (keys vals : list Q) :
  functional d -> List.length keys = List.length vals ->
  (forall k v, In (k, v) (combine keys vals) -> In (k, v) d) ->
  map (fun k => dict_get k d 0) keys = vals.
Proof.
  intro F. revert vals.
  induction keys as [|k keys IH]; intros [|v vals] L H; try discriminate;
    [reflexivity|].
  cbn [map]. f_equal.
  - apply dict_get_in; [exact F|]. apply H. now left.
  - apply IH; [now inversion L|]. intros k' v' Hin. apply H. now right.
Qed.

(** ** Construction *)

Lemma post_init_inv (ratio : Q) (cfg s : Bot) :
  post_init ratio cfg = inr s ->
  valid_config cfg /\ s = _build_levels ratio cfg.
Proof.
  unfold post_init, validate_eps, validate_bounds, validate_positive,
    validate_non_negative, validate_rate, validate_precision, bind, ok, raise.
  intro H.
  repeat (split_test; try discriminate H).
  cbn in H. repeat (split_test; try discriminate H).
  repeat match goal with
         | E : (_ || _) = false |- _ =>
             apply orb_false_iff in E; destruct E
         end.
  repeat match goal with
         | E : Qle_bool _ _ = false |- _ => apply Qle_bool_false in E
         | E : Qlt_bool _ _ = false |- _ => apply Qlt_bool_false in E
         | E : (_ <? _)%Z = false |- _ => apply Z.ltb_ge in E
         end.
  split.
  - unfold valid_config. repeat split; try assumption; lra.
  - injection H as <-. destruct cfg; reflexivity.
Qed.

Lemma levels_set_levels (s : Bot) (ls : list GridLevel) :
  levels (set_levels s ls) = ls.
Proof. reflexivity. Qed.

Lemma base_part_make (self : Bot) (bd qd : dict) (prices : list Q) :
  held_base (map (make_level self bd qd) prices) ==
  Qsum (map (fun k => dict_get k bd 0) (base_levels self prices)).
Proof.
  unfold held_base, base_levels, Qsum.
  induction prices as [|p prices IH]; [reflexivity|].
  cbn [map filter fold_right]. rewrite IH. unfold base_part at 1, make_level.
  destruct (seeded_base self p); cbn; [reflexivity|ring].
Qed.


(** The dictionary an allocation loop leaves, read back at its keys. *)
Lemma allocations_read_back (precision : Z) (keys : list Q) (balance : Q) :
  StronglySorted Qlt keys ->
  map (fun k =>
         dict_get k
           (snd (allocate precision (List.length keys) 0 balance [] keys)) 0)
      keys
  = shares precision (List.length keys) balance.
Proof.
  intro S. rewrite allocate_spec by reflexivity. cbn [snd].
  apply lookup_all.
  - apply functional_rev, combine_functional, S.
  - now rewrite shares_length.
  - intros k v Hin. rewrite app_nil_r. now apply in_rev in Hin.
Qed.

Lemma allocations_values (precision : Z) (keys : list Q) (balance : Q) :
  forall k v,
    In (k, v) (snd (allocate precision (List.length keys) 0 balance [] keys)) ->
    In v (shares precision (List.length keys) balance).
Proof.
  intros k v. rewrite allocate_spec by reflexivity. cbn [snd].
  rewrite app_nil_r. intro Hin. apply in_rev in Hin.
  now apply in_combine_r in Hin.
Qed.

Lemma ladder_prices_sorted (ratio : Q) (cfg : Bot) :
  1 < ratio -> 0 < lower_price cfg ->
  StronglySorted Qlt (ladder_prices cfg ratio).
Proof. intros. now apply ladder_sorted. Qed.

Lemma build_held_base (ratio : Q) (cfg : Bot) :
  1 < ratio -> 0 < lower_price cfg ->
  held_base (levels (_build_levels ratio cfg)) + base_dust ratio cfg
  == base_balance cfg.
Proof.
  intros Hr Hl. unfold _build_levels, base_dust. rewrite levels_set_levels.
  rewrite base_part_make.
  rewrite allocations_read_back
    by (apply sorted_filter, ladder_prices_sorted; assumption).
  rewrite allocate_spec by reflexivity. cbn [fst].
  apply shares_sum.
Qed.



(** ** One execution *)

Lemma _execute_buy_inv (self : Bot) (level : GridLevel) (r : Bot * GridLevel) :
  _execute_buy self level = inr r ->
  (quote_budget level <= eps self /\ r = (self, level)) \/
  (eps self < quote_budget level /\
   quote_budget level <= quote_balance self + eps self /\
   exists trade,
     buy_trade self level = inr trade /\
     eps self < quantity trade /\
     r = bought self level trade).
Proof.
  unfold _execute_buy, ensure_sufficient_balance, ensure_trade_result, bind,
    ok, raise.
  fold (buy_trade self level). intro H.
  destruct (Qle_bool (quote_budget level) (eps self)) eqn:E1.
  - left. apply Qle_bool_iff in E1. split; [exact E1|congruence].
  - right. apply Qle_bool_false in E1.
    destruct (Qlt_bool (quote_balance self + eps self) (quote_budget level))
      eqn:E2; [discriminate|]. apply Qlt_bool_false in E2.
    destruct (buy_trade self level) as [e|trade] eqn:E3; [discriminate|].
    destruct (Qle_bool (quantity trade) (eps self)) eqn:E4; [discriminate|].
    apply Qle_bool_false in E4.
    split; [exact E1|]. split; [exact E2|].
    exists trade. repeat split; [exact E4|]. unfold bought. congruence.
Qed.

Lemma _execute_sell_inv (self : Bot) (level : GridLevel) (r : Bot * GridLevel) :
  _execute_sell self level = inr r ->
  (base_position level <= eps self /\ r = (self, level)) \/
  (eps self < base_position level /\
   base_position level <= base_balance self + eps self /\
   eps self < quote_amount (sell_trade self level) /\
   r = sold self level (sell_trade self level)).
Proof.
  unfold _execute_sell, ensure_sufficient_balance, ensure_trade_result, bind,
    ok, raise.
  fold (sell_trade self level). intro H.
  destruct (Qle_bool (base_position level) (eps self)) eqn:E1.
  - left. apply Qle_bool_iff in E1. split; [exact E1|congruence].
  - right. apply Qle_bool_false in E1.
    destruct (Qlt_bool (base_balance self + eps self) (base_position level))
      eqn:E2; [discriminate|]. apply Qlt_bool_false in E2.
    destruct (Qle_bool (quote_amount (sell_trade self level)) (eps self))
      eqn:E4; [discriminate|].
    apply Qle_bool_false in E4.
    repeat split; try assumption. unfold sold. congruence.
Qed.

Lemma buy_trade_inv (self : Bot) (level : GridLevel) (trade : TradeBreakdown) :
  buy_trade self level = inr trade ->
  let effective := apply_slippage (price level) (slippage_rate self) buy in
  ~ effective == 0 /\
  quantity trade =
    round_decimal
      (quote_budget level / effective
       - calculate_fee (quote_budget level / effective) (fee_rate self))
      (quantity_precision self) /\
  quote_amount trade =
    round_decimal (quote_budget level) (price_precision self).
Proof.
  unfold buy_trade, execute_buy, ok, raise. intro H.
  destruct (Qeq_bool (apply_slippage (price level) (slippage_rate self) buy) 0)
    eqn:E; [discriminate|].
  apply Qeq_bool_neq in E. injection H as <-. cbn. auto.
Qed.

(** ** Invariants of the loops *)

Lemma same_config_refl (c : Bot) : same_config c c.
Proof. unfold same_config. tauto. Qed.

Lemma same_config_settle (c s : Bot) (b q : Q) (log : TradeLog) :
  same_config c s -> same_config c (settle s b q log).
Proof. unfold same_config. cbn. tauto. Qed.

Lemma same_config_set_levels (c s : Bot) (ls : list GridLevel) :
  same_config c s -> same_config c (set_levels s ls).
Proof. unfold same_config. cbn. tauto. Qed.

Lemma for_each_preserves (J : Bot -> list GridLevel -> Prop)
    (body : Bot -> GridLevel -> result (Bot * GridLevel)) :
  (forall s l s' l' pre post,
      J s (pre ++ l :: post) -> body s l = inr (s', l') ->
      J s' (pre ++ l' :: post)) ->
  forall ls pre s r s' ls',
    J s (pre ++ ls) -> for_each body s ls = (r, s', ls') ->
    J s' (pre ++ ls').
Proof.
  intro Step. induction ls as [|l rest IH]; intros pre s r s' ls' HJ H.
  - cbn in H. injection H as <- <- <-. exact HJ.
  - cbn [for_each] in H. destruct (body s l) as [e|[s1 l1]] eqn:E.
    + injection H as <- <- <-. exact HJ.
    + destruct (for_each body s1 rest) as [[r2 s2] rest2] eqn:E2.
      injection H as <- <- <-.
      pose proof (Step _ _ _ _ _ _ HJ E) as HJ1.
      change (pre ++ l1 :: rest) with (pre ++ [l1] ++ rest) in HJ1.
      rewrite app_assoc in HJ1.
      pose proof (IH _ _ _ _ _ HJ1 E2) as HJ2.
      rewrite <- app_assoc in HJ2. exact HJ2.
Qed.

Lemma Forall_replace {A : Type} (P : A -> Prop) (pre post : list A) (x y : A) :
  Forall P (pre ++ x :: post) -> P y -> Forall P (pre ++ y :: post).
Proof.
  intros H Hy. apply Forall_app in H. destruct H as [Hp Hx].
  apply Forall_app. split; [exact Hp|].
  inversion Hx; subst. now constructor.
Qed.

Lemma Forall_middle {A : Type} (P : A -> Prop) (pre post : list A) (x : A) :
  Forall P (pre ++ x :: post) -> P x.
Proof.
  intro H. apply Forall_app in H. destruct H as [_ Hx]. now inversion Hx.
Qed.

Lemma held_base_middle (pre post : list GridLevel) (l : GridLevel) :
  held_base (pre ++ l :: post) == held_base pre + base_part l + held_base post.
Proof. rewrite held_base_app, held_base_cons. ring. Qed.

Lemma buy_due_quote (s : Bot) (cp : Q) (l : GridLevel) :
  buy_due s cp l = true -> status l = quote /\ cp <= price l + eps s.
Proof.
  unfold buy_due. destruct (status l); [|discriminate].
  intro H. apply Qle_bool_iff in H. auto.
Qed.

Lemma sell_due_base (s : Bot) (cp : Q) (l : GridLevel) :
  sell_due s cp l = true -> status l = base /\ price l - eps s <= cp.
Proof.
  unfold sell_due. destruct (status l); [discriminate|].
  intro H. apply Qle_bool_iff in H. auto.
Qed.

Lemma buy_body_inv (c : Bot) (d cp : Q) :
  0 < eps c ->
  forall s l s' l' pre post,
    loop_inv c d s (pre ++ l :: post) -> buy_body cp s l = inr (s', l') ->
    loop_inv c d s' (pre ++ l' :: post).
Proof.
  intros He s l s' l' pre post (Hc & Hf & Hb) H.
  unfold buy_body in H. destruct (buy_due s cp l) eqn:Hdue.
  2:{ injection H as <- <-. split; [|split]; assumption. }
  apply buy_due_quote in Hdue. destruct Hdue as [Hq _].
  apply _execute_buy_inv in H.
  destruct H as [[_ H]|(Hgt & _ & trade & Ht & Hqty & H)].
  { injection H as <- <-. split; [|split]; assumption. }
  unfold bought in H. injection H as -> ->.
  apply buy_trade_inv in Ht. cbv zeta in Ht. destruct Ht as (_ & Eq & _).
  pose proof (Forall_middle _ _ _ _ Hf) as (Hp & _).
  assert (Eqp : quantity_precision s = quantity_precision c) by apply Hc.
  assert (Ee : eps s = eps c) by apply Hc.
  split; [now apply same_config_settle|]. split.
  - eapply Forall_replace; [exact Hf|].
    unfold level_ok. cbn. repeat split; try assumption; try discriminate.
    intros _. rewrite Eq, Eqp. apply round_decimal_is_multiple.
  - rewrite held_base_middle in *. unfold base_part in *. cbn.
    rewrite Hq in Hb. lra.
Qed.

Lemma sell_quantity_exact (c s : Bot) (l : GridLevel) :
  0 < eps c -> same_config c s ->
  level_ok (price_precision c) (quantity_precision c) l ->
  eps s < base_position l ->
  quantity (sell_trade s l) == base_position l.
Proof.
  intros He Hc (_ & _ & _ & Hm & _) Hgt.
  assert (Eqp : quantity_precision s = quantity_precision c) by apply Hc.
  assert (Ee : eps s = eps c) by apply Hc.
  unfold sell_trade, execute_sell. cbn [quantity]. rewrite Eqp.
  rewrite Ee in Hgt. apply round_decimal_of_multiple, Hm. lra.
Qed.

Lemma sell_body_inv (c : Bot) (d cp : Q) :
  0 < eps c ->
  forall s l s' l' pre post,
    loop_inv c d s (pre ++ l :: post) -> sell_body cp s l = inr (s', l') ->
    loop_inv c d s' (pre ++ l' :: post).
Proof.
  intros He s l s' l' pre post (Hc & Hf & Hb) H.
  unfold sell_body in H. destruct (sell_due s cp l) eqn:Hdue.
  2:{ injection H as <- <-. split; [|split]; assumption. }
  apply sell_due_base in Hdue. destruct Hdue as [Hq _].
  apply _execute_sell_inv in H.
  destruct H as [[_ H]|(Hgt & _ & Hamt & H)].
  { injection H as <- <-. split; [|split]; assumption. }
  unfold sold in H. injection H as -> ->.
  pose proof (Forall_middle _ _ _ _ Hf) as Hl.
  pose proof (sell_quantity_exact c s l He Hc Hl Hgt) as Hx.
  destruct Hl as (Hp & _).
  assert (Epp : price_precision s = price_precision c) by apply Hc.
  split; [now apply same_config_settle|]. split.
  - eapply Forall_replace; [exact Hf|].
    unfold level_ok. cbn. repeat split; try assumption; try discriminate.
    intros _. rewrite Epp. apply round_decimal_is_multiple.
  - rewrite held_base_middle in *. unfold base_part in *. cbn.
    unfold sell_trade, execute_sell in Hx. cbn [quantity] in Hx.
    rewrite Hq in Hb. lra.
Qed.

(** ** The invariant of the engine *)

Lemma loop_inv_rev (c : Bot) (d : Q) (s : Bot) (ls : list GridLevel) :
  loop_inv c d s ls -> loop_inv c d s (rev ls).
Proof.
  intros (Hc & Hf & Hb). split; [exact Hc|]. split.
  - now apply Forall_rev.
  - now rewrite held_base_rev.
Qed.

Lemma loop_inv_set_levels (c : Bot) (d : Q) (s : Bot) (ls ls' : list GridLevel) :
  loop_inv c d s ls -> loop_inv c d (set_levels s ls') ls.
Proof.
  intros (Hc & Hf & Hb). split; [now apply same_config_set_levels|].
  split; assumption.
Qed.

Lemma state_of_finish (r : option error) (s : Bot) : state_of (finish r s) = s.
Proof. now destruct r. Qed.

Lemma buy_pass_inv (c : Bot) (d cp : Q) (s : Bot) :
  0 < eps c -> engine_inv c d s -> engine_inv c d (state_of (buy_pass cp s)).
Proof.
  intros He H. unfold buy_pass.
  destruct (for_each (buy_body cp) s (levels s)) as [[r s1] ls1] eqn:E.
  rewrite state_of_finish. unfold engine_inv. rewrite levels_set_levels.
  apply loop_inv_set_levels.
  apply (for_each_preserves (loop_inv c d) (buy_body cp)
           (buy_body_inv c d cp He) (levels s) [] s r s1 ls1 H E).
Qed.

Lemma sell_pass_inv (c : Bot) (d cp : Q) (s : Bot) :
  0 < eps c -> engine_inv c d s -> engine_inv c d (state_of (sell_pass cp s)).
Proof.
  intros He H. unfold sell_pass.
  destruct (for_each (sell_body cp) s (rev (levels s))) as [[r s1] ls1] eqn:E.
  rewrite state_of_finish. unfold engine_inv. rewrite levels_set_levels.
  apply loop_inv_set_levels, loop_inv_rev.
  apply (for_each_preserves (loop_inv c d) (sell_body cp)
           (sell_body_inv c d cp He) (rev (levels s)) [] s r s1 ls1);
    [|exact E].
  apply loop_inv_rev, H.
Qed.

Lemma state_of_final_checks (s : Bot) : state_of (final_checks s) = s.
Proof.
  unfold final_checks.
  destruct (ensure_non_negative_balance (base_balance s) _ _); [reflexivity|].
  destruct (ensure_non_negative_balance (quote_balance s) _ _); reflexivity.
Qed.

Lemma on_price_tick_inv (c : Bot) (d : Q) (s : Bot) (tick : Q) :
  0 < eps c -> engine_inv c d s ->
  engine_inv c d (state_of (on_price_tick s tick)).
Proof.
  intros He H. unfold on_price_tick.
  destruct (validate_positive tick "market_price" (eps s)) as [e|cp];
    [exact H|].
  pose proof (buy_pass_inv c d cp s He H) as H1.
  destruct (buy_pass cp s) as [s1|e s1]; cbn [and_then state_of] in *;
    [|exact H1].
  pose proof (sell_pass_inv c d cp s1 He H1) as H2.
  destruct (sell_pass cp s1) as [s2|e s2]; cbn [and_then state_of] in *;
    [|exact H2].
  now rewrite state_of_final_checks.
Qed.

Lemma ladder_positive (ratio : Q) (cfg : Bot) (p : Q) :
  1 < ratio -> 0 < lower_price cfg ->
  In p (ladder_prices cfg ratio) -> 0 < p.
Proof.
  intros Hr Hl Hin.
  pose proof (ladder_above (Z.to_nat (num_levels cfg)) ratio Hr
                (lower_price cfg) Hl) as F.
  rewrite Forall_forall in F. apply F in Hin. lra.
Qed.

Lemma make_level_ok (self : Bot) (bd qd : dict) (p : Q) :
  0 < p ->
  (forall k v, In (k, v) bd ->
     0 < v -> multiple_of_quant (quantity_precision self) v) ->
  (forall k v, In (k, v) qd ->
     0 < v -> multiple_of_quant (price_precision self) v) ->
  level_ok (price_precision self) (quantity_precision self)
    (make_level self bd qd p).
Proof.
  intros Hp Hb Hq.
  assert (H0 : 0 <= round_decimal p (price_precision self)).
  { apply round_decimal_nonneg. lra. }
  unfold make_level, level_ok.
  destruct (seeded_base self p); cbn;
    repeat split; try assumption; try discriminate.
  - apply (dict_get_Forall
             (fun a => 0 < a -> multiple_of_quant (quantity_precision self) a)).
    + intro. lra.
    + exact Hb.
  - apply (dict_get_Forall
             (fun a => 0 < a -> multiple_of_quant (price_precision self) a)).
    + intro. lra.
    + exact Hq.
Qed.

Lemma shares_values_quantized (precision : Z) (keys : list Q) (balance : Q) :
  forall k v,
    In (k, v) (snd (allocate precision (List.length keys) 0 balance [] keys)) ->
    0 < v -> multiple_of_quant precision v.
Proof.
  intros k v Hin. apply allocations_values in Hin.
  pose proof (shares_quantized precision (List.length keys) balance) as F.
  rewrite Forall_forall in F. now apply F.
Qed.

Lemma build_inv (ratio : Q) (cfg : Bot) :
  1 < ratio -> 0 < lower_price cfg ->
  engine_inv cfg (base_dust ratio cfg) (_build_levels ratio cfg).
Proof.
  intros Hr Hl. unfold engine_inv. split; [|split].
  - unfold _build_levels. apply same_config_set_levels, same_config_refl.
  - unfold _build_levels. rewrite levels_set_levels.
    apply Forall_forall. intros l Hin. apply in_map_iff in Hin.
    destruct Hin as (p & <- & Hp).
    apply make_level_ok.
    + now apply (ladder_positive ratio cfg).
    + apply shares_values_quantized.
    + apply shares_values_quantized.
  - pose proof (build_held_base ratio cfg Hr Hl) as E.
    change (base_balance (_build_levels ratio cfg)) with (base_balance cfg).
    lra.
Qed.

Lemma reachable_inv (ratio : Q) (cfg s : Bot) :
  1 < ratio -> reachable ratio cfg s ->
  valid_config cfg /\ engine_inv cfg (base_dust ratio cfg) s.
Proof.
  intros Hr H. induction H as [s H|s tick s' _ IH H|s tick e s' _ IH H].
  - apply post_init_inv in H. destruct H as [V ->].
    split; [exact V|]. apply build_inv; [exact Hr|].
    destruct V as (He & Hlow & _). lra.
  - destruct IH as [V I]. split; [exact V|].
    change s' with (state_of (Returned s')). rewrite <- H.
    apply on_price_tick_inv; [apply V|exact I].
  - destruct IH as [V I]. split; [exact V|].
    change s' with (state_of (Raised e s')). rewrite <- H.
    apply on_price_tick_inv; [apply V|exact I].
Qed.

(** ** Claims on the balances *)










(** ** Claims on the allocation and on the level fields *)





(** C7, as stated, fails: with [base_balance = 0] the level seeded with base
    has both fields zero. *)
Lemma C7_counterexample :
  ~ (forall ratio cfg s l,
       1 < ratio -> reachable ratio cfg s -> In l (levels s) ->
       (~ quote_budget l == 0 <-> status l = quote) /\
       (~ base_position l == 0 <-> status l = base)).
Proof.
  intro H.
  assert (R : reachable 2 cfg_empty (built 2 cfg_empty))
    by (apply reach_init; reflexivity).
  pose (l := hd (mkGridLevel 0 quote 0 0 None) (levels (built 2 cfg_empty))).
  assert (Hin : In l (levels (built 2 cfg_empty)))
    by (vm_compute; left; reflexivity).
  destruct (H 2 cfg_empty (built 2 cfg_empty) l eq_refl R Hin) as (_ & _ & H2).
  apply H2; vm_compute; reflexivity.
Qed.

(** C7, amended: in every reachable state every level has at most one of
    [quote_budget] and [base_position] non-zero, and a non-zero field agrees
    with the status: [base_position] is zero when the status is quote and
    [quote_budget] is zero when the status is base (the field that goes with
    the status may be zero as well). *)
Theorem C7_fields_agree_with_status (ratio : Q) (cfg s : Bot) (l : GridLevel) :
  1 < ratio -> reachable ratio cfg s -> In l (levels s) ->
  (quote_budget l == 0 \/ base_position l == 0) /\
  (~ quote_budget l == 0 -> status l = quote) /\
  (~ base_position l == 0 -> status l = base).
Proof.
  intros Hr R Hin.
  destruct (reachable_inv ratio cfg s Hr R) as [_ (_ & F & _)].
  rewrite Forall_forall in F. destruct (F l Hin) as (_ & Hq & Hb & _).
  destruct (status l) eqn:E.
  - rewrite (Hq eq_refl). repeat split.
    + right. reflexivity.
    + intro H. exfalso. apply H. reflexivity.
  - rewrite (Hb eq_refl). repeat split.
    + left. reflexivity.
    + intro H. exfalso. apply H. reflexivity.
Qed.

Lemma C7_witness :
  (quote_budget grid_level == 0 \/ base_position grid_level == 0) /\
  (~ quote_budget grid_level == 0 -> status grid_level = quote) /\
  (~ base_position grid_level == 0 -> status grid_level = base).
Proof.
  apply (C7_fields_agree_with_status 2 cfg_grid (built 2 cfg_grid) grid_level).
  - reflexivity.
  - apply reach_init. reflexivity.
  - vm_compute. right. left. reflexivity.
Defined.

(** ** Claims on one execution *)










(** ** Errors during a tick *)

Lemma for_each_app (body : Bot -> GridLevel -> result (Bot * GridLevel))
    (pre rest : list GridLevel) :
  forall s s1 pre1,
    for_each body s pre = (None, s1, pre1) ->
    for_each body s (pre ++ rest) =
    (let '(r, s2, rest') := for_each body s1 rest in (r, s2, pre1 ++ rest')).
Proof.
  induction pre as [|l pre IH]; intros s s1 pre1 H.
  - cbn in H. injection H as <- <-. cbn.
    now destruct (for_each body s rest) as [[r s2] rest'].
  - cbn [for_each app] in *. destruct (body s l) as [e|[s' l']];
      [discriminate|].
    destruct (for_each body s' pre) as [[r0 s0] pre0] eqn:E.
    injection H as -> <- <-.
    rewrite (IH s' s0 pre0 E).
    now destruct (for_each body s0 rest) as [[r s2] rest'].
Qed.

Lemma for_each_raises (body : Bot -> GridLevel -> result (Bot * GridLevel))
    (pre : list GridLevel) (l : GridLevel) (post : list GridLevel)
    (s s1 : Bot) (pre1 : list GridLevel) (e : error) :
  for_each body s pre = (None, s1, pre1) ->
  body s1 l = inl e ->
  for_each body s (pre ++ l :: post) = (Some e, s1, pre1 ++ l :: post).
Proof.
  intros H E. rewrite (for_each_app body pre (l :: post) s s1 pre1 H).
  cbn [for_each]. now rewrite E.
Qed.

(** C8: when the execution at a level raises during [on_price_tick], the
    error leaves [on_price_tick]; the level that raised and the levels that
    come after it in that pass are as they were, the other pass is not
    started when the first one raised, and the levels executed earlier in the
    call keep their new fields, with the balances and the trade records of
    those executions. *)
Theorem C8_error_leaves_earlier_executions (s : Bot) (tick cp : Q) :
  validate_positive tick "market_price" (eps s) = inr cp ->
  (forall pre l post s1 pre1 e,
      levels s = pre ++ l :: post ->
      for_each (buy_body cp) s pre = (None, s1, pre1) ->
      buy_body cp s1 l = inl e ->
      on_price_tick s tick = Raised e (set_levels s1 (pre1 ++ l :: post))) /\
  (forall s1 pre l post s2 post1 e,
      buy_pass cp s = Returned s1 ->
      levels s1 = pre ++ l :: post ->
      for_each (sell_body cp) s1 (rev post) = (None, s2, post1) ->
      sell_body cp s2 l = inl e ->
      on_price_tick s tick = Raised e (set_levels s2 (pre ++ l :: rev post1))).
Proof.
  intro Hv. split.
  - intros pre l post s1 pre1 e Hl Hpre Hraise.
    unfold on_price_tick. rewrite Hv. unfold buy_pass. rewrite Hl.
    rewrite (for_each_raises _ pre l post s s1 pre1 e Hpre Hraise).
    reflexivity.
  - intros s1 pre l post s2 post1 e Hbuy Hl Hpost Hraise.
    unfold on_price_tick. rewrite Hv, Hbuy. cbn [and_then].
    unfold sell_pass. rewrite Hl, rev_app_distr. cbn [rev].
    rewrite <- app_assoc. cbn [app].
    rewrite (for_each_raises _ (rev post) l (rev pre) s1 s2 post1 e
               Hpost Hraise).
    cbn [finish and_then]. rewrite rev_app_distr. cbn [rev].
    rewrite rev_involutive, <- app_assoc. reflexivity.
Qed.

Lemma C8_witness :
  on_price_tick (built 2 cfg_null) (3 # 4) =
  Raised (NullTradeResult "BTC")
    (set_levels (fst null_prefix)
       (snd null_prefix ++ skipn 2 (levels (built 2 cfg_null)))).
Proof.
  destruct (C8_error_leaves_earlier_executions (built 2 cfg_null)
              (3 # 4) (3 # 4) eq_refl) as [Hbuy _].
  apply (Hbuy (firstn 2 (levels (built 2 cfg_null)))
           (nth 2 (levels (built 2 cfg_null)) (mkGridLevel 0 quote 0 0 None))
           [] (fst null_prefix) (snd null_prefix) (NullTradeResult "BTC")).
  - vm_compute. reflexivity.
  - vm_compute. reflexivity.
  - vm_compute. reflexivity.
Defined.

(** ** The ladder of prices *)







(** ** Feeding the same price twice *)














(** ** The order of the two passes *)

Lemma buy_due_config (c s : Bot) (cp : Q) (l : GridLevel) :
  same_config c s -> buy_due s cp l = buy_due c cp l.
Proof.
  intro Hc. assert (E : eps s = eps c) by apply Hc.
  unfold buy_due. now rewrite E.
Qed.

Lemma sell_due_config (c s : Bot) (cp : Q) (l : GridLevel) :
  same_config c s -> sell_due s cp l = sell_due c cp l.
Proof.
  intro Hc. assert (E : eps s = eps c) by apply Hc.
  unfold sell_due. now rewrite E.
Qed.

Lemma buy_trade_config (c s : Bot) (l : GridLevel) :
  same_config c s -> buy_trade s l = buy_trade c l.
Proof.
  intros (_ & _ & _ & _ & _ & _ & E1 & E2 & E3 & E4 & _).
  unfold buy_trade. now rewrite E1, E2, E3, E4.
Qed.

Lemma sell_trade_config (c s : Bot) (l : GridLevel) :
  same_config c s -> sell_trade s l = sell_trade c l.
Proof.
  intros (_ & _ & _ & _ & _ & _ & E1 & E2 & E3 & E4 & _).
  unfold sell_trade. now rewrite E1, E2, E3, E4.
Qed.

Lemma has_no_effect (s : Bot) (l : GridLevel) : has_effect s (no_effect l) s l.
Proof.
  unfold has_effect, no_effect. cbn. rewrite app_nil_r.
  repeat split; ring.
Qed.

Lemma buy_body_effect (c : Bot) (cp : Q) (s : Bot) (l : GridLevel) (s' : Bot)
    (l' : GridLevel) :
  same_config c s -> buy_body cp s l = inr (s', l') ->
  same_config c s' /\ has_effect s (buy_effect c cp l) s' l'.
Proof.
  intros Hc H. assert (Ee : eps s = eps c) by apply Hc.
  unfold buy_body in H. unfold buy_effect.
  rewrite (buy_due_config c s cp l Hc) in H.
  destruct (buy_due c cp l); cbn [andb].
  2:{ injection H as <- <-. split; [exact Hc|apply has_no_effect]. }
  apply _execute_buy_inv in H. rewrite Ee in H.
  destruct H as [[Hle H]|(Hgt & _ & trade & Ht & _ & H)].
  - injection H as -> ->. rewrite Qle_bool_intro by exact Hle. cbn [negb].
    split; [exact Hc|apply has_no_effect].
  - rewrite Qle_bool_lt by exact Hgt. cbn [negb].
    rewrite (buy_trade_config c s l Hc) in Ht. rewrite Ht.
    unfold bought in H. injection H as -> ->.
    split; [now apply same_config_settle|].
    unfold has_effect. cbn. repeat split; ring.
Qed.

Lemma sell_body_effect (c : Bot) (cp : Q) (s : Bot) (l : GridLevel) (s' : Bot)
    (l' : GridLevel) :
  same_config c s -> sell_body cp s l = inr (s', l') ->
  same_config c s' /\ has_effect s (sell_effect c cp l) s' l'.
Proof.
  intros Hc H. assert (Ee : eps s = eps c) by apply Hc.
  unfold sell_body in H. unfold sell_effect.
  rewrite (sell_due_config c s cp l Hc) in H.
  destruct (sell_due c cp l); cbn [andb].
  2:{ injection H as <- <-. split; [exact Hc|apply has_no_effect]. }
  apply _execute_sell_inv in H. rewrite Ee in H.
  destruct H as [[Hle H]|(Hgt & _ & _ & H)].
  - injection H as -> ->. rewrite Qle_bool_intro by exact Hle. cbn [negb].
    split; [exact Hc|apply has_no_effect].
  - rewrite Qle_bool_lt by exact Hgt. cbn [negb].
    rewrite (sell_trade_config c s l Hc) in H.
    unfold sold in H. injection H as -> ->.
    split; [now apply same_config_settle|].
    unfold has_effect. cbn. repeat split; ring.
Qed.















(** ** More on utils.py *)

Lemma round_decimal_neg_error (x : Q) (p : Z) :
  x < 0 -> - quant p < x - round_decimal x p.
Proof.
  intro H. pose proof (quant_pos p) as Hq. pose proof (div_quant x p) as E.
  assert (Hx : x / quant p < 0) by (apply Qlt_shift_div_r; lra).
  unfold round_decimal, truncate. rewrite (Qle_bool_lt _ _ Hx).
  pose proof (Qceiling_lt (x / quant p)) as L.
  unfold Z.sub in L. rewrite inject_Z_plus, inject_Z_opp in L.
  change (inject_Z 1) with 1 in L.
  set (t := inject_Z (Qceiling (x / quant p))) in *.
  set (y := x / quant p) in *. nra.
Qed.

(** X1: [round_decimal] rounds toward zero: the result has the sign of the
    value, is no larger in magnitude, and differs from the value by less than
    one unit [10^(-precision)]; for a negative value it is therefore not
    below the value. *)
Theorem X1_round_decimal_truncates (x : Q) (p : Z) :
  (0 <= x -> 0 <= round_decimal x p /\ round_decimal x p <= x) /\
  (x <= 0 -> x <= round_decimal x p /\ round_decimal x p <= 0) /\
  - quant p < x - round_decimal x p /\ x - round_decimal x p < quant p.
Proof.
  pose proof (quant_pos p) as Hq.
  destruct (Qlt_le_dec x 0) as [Hneg|Hpos].
  - destruct (round_decimal_neg x p Hneg) as [A B].
    pose proof (round_decimal_neg_error x p Hneg) as C.
    split; [|split; [|split]]; try lra; intro; lra.
  - destruct (round_decimal_nonneg x p Hpos) as (A & B & C).
    split; [|split; [|split]]; lra.
Qed.

Lemma X1_witness :
  0 <= round_decimal (12345 # 1000) 2 /\
  round_decimal (12345 # 1000) 2 <= 12345 # 1000.
Proof.
  destruct (X1_round_decimal_truncates (12345 # 1000) 2) as [H _].
  apply H. vm_compute. discriminate.
Defined.

(** X2: the values [round_decimal] leaves unchanged are exactly the integer
    multiples of [10^(-precision)]; in particular rounding twice is rounding
    once. *)
Theorem X2_round_decimal_fixed_points (x : Q) (p : Z) :
  (round_decimal x p == x <-> multiple_of_quant p x) /\
  round_decimal (round_decimal x p) p == round_decimal x p.
Proof.
  split.
  - split.
    + intro E. exists (truncate (x / quant p)). symmetry. exact E.
    + apply round_decimal_of_multiple.
  - apply round_decimal_of_multiple, round_decimal_is_multiple.
Qed.

Lemma truncate_mono (x y : Q) : x <= y -> (truncate x <= truncate y)%Z.
Proof.
  intro H. unfold truncate.
  destruct (Qle_bool 0 x) eqn:Ex; destruct (Qle_bool 0 y) eqn:Ey.
  - now apply Qfloor_resp_le.
  - apply Qle_bool_iff in Ex. apply Qle_bool_false in Ey. lra.
  - apply Qle_bool_false in Ex. apply Qle_bool_iff in Ey.
    apply Z.le_trans with 0%Z.
    + rewrite <- (Qceiling_Z 0). apply Qceiling_resp_le.
      change (inject_Z 0) with 0. lra.
    + rewrite <- (Qfloor_Z 0). apply Qfloor_resp_le. exact Ey.
  - now apply Qceiling_resp_le.
Qed.

(** X3: [round_decimal] is monotone: a larger value never rounds to a smaller
    result. *)
Theorem X3_round_decimal_monotone (x y : Q) (p : Z) :
  x <= y -> round_decimal x p <= round_decimal y p.
Proof.
  intro H. pose proof (quant_pos p) as Hq. unfold round_decimal.
  apply Qmult_le_compat_r; [|lra].
  rewrite <- Zle_Qle. apply truncate_mono.
  apply Qle_shift_div_l; [lra|]. rewrite div_quant. exact H.
Qed.

Lemma X3_witness : round_decimal (- (7 # 2)) 0 <= round_decimal (5 # 2) 0.
Proof.
  apply (X3_round_decimal_monotone (- (7 # 2)) (5 # 2) 0).
  vm_compute. discriminate.
Defined.










(** ** More on validators.py and on the construction *)


















(** ** More on the tick *)

Lemma step_on_reversed (J : Bot -> list GridLevel -> Prop)
    (body : Bot -> GridLevel -> result (Bot * GridLevel)) :
  (forall s l s' l' pre post,
      J s (pre ++ l :: post) -> body s l = inr (s', l') ->
      J s' (pre ++ l' :: post)) ->
  forall s l s' l' pre post,
    J s (rev (pre ++ l :: post)) -> body s l = inr (s', l') ->
    J s' (rev (pre ++ l' :: post)).
Proof.
  intros Step s l s' l' pre post HJ H.
  rewrite rev_app_distr in *. cbn [rev] in *. rewrite <- app_assoc in *.
  cbn [app] in *. eapply Step; eassumption.
Qed.

(** A property of the engine and its levels that every execution keeps is
    kept by [on_price_tick], whether it returns or raises. *)
Lemma tick_preserves (J : Bot -> list GridLevel -> Prop) :
  (forall cp s l s' l' pre post,
      J s (pre ++ l :: post) -> buy_body cp s l = inr (s', l') ->
      J s' (pre ++ l' :: post)) ->
  (forall cp s l s' l' pre post,
      J s (pre ++ l :: post) -> sell_body cp s l = inr (s', l') ->
      J s' (pre ++ l' :: post)) ->
  (forall s ls ls', J s ls -> J (set_levels s ls') ls) ->
  forall s tick,
    J s (levels s) ->
    J (state_of (on_price_tick s tick))
      (levels (state_of (on_price_tick s tick))).
Proof.
  intros Hbuy Hsell Hset s tick H. unfold on_price_tick.
  destruct (validate_positive tick "market_price" (eps s)) as [e|cp];
    [exact H|].
  assert (H1 : J (state_of (buy_pass cp s)) (levels (state_of (buy_pass cp s)))).
  { unfold buy_pass.
    destruct (for_each (buy_body cp) s (levels s)) as [[r s1] ls1] eqn:E.
    rewrite state_of_finish, levels_set_levels. apply Hset.
    apply (for_each_preserves J (buy_body cp) (Hbuy cp) (levels s) [] s r s1 ls1
             H E). }
  destruct (buy_pass cp s) as [s1|e s1]; cbn [and_then state_of] in *;
    [|exact H1].
  assert (H2 : J (state_of (sell_pass cp s1))
                 (levels (state_of (sell_pass cp s1)))).
  { unfold sell_pass.
    destruct (for_each (sell_body cp) s1 (rev (levels s1))) as [[r s2] ls2]
      eqn:E.
    rewrite state_of_finish, levels_set_levels. apply Hset.
    apply (for_each_preserves (fun x ls => J x (rev ls)) (sell_body cp)
             (fun x l x' l' pre post =>
                step_on_reversed J (sell_body cp) (Hsell cp) x l x' l' pre post)
             (rev (levels s1)) [] s1 r s2 ls2); [|exact E].
    cbn [app]. now rewrite rev_involutive. }
  destruct (sell_pass cp s1) as [s2|e s2]; cbn [and_then state_of] in *;
    [|exact H2].
  now rewrite state_of_final_checks.
Qed.

Lemma buy_effect_price (c : Bot) (cp : Q) (l : GridLevel) :
  price (new_level (buy_effect c cp l)) = price l.
Proof.
  unfold buy_effect.
  destruct (buy_due c cp l && negb (Qle_bool (quote_budget l) (eps c)));
    [|reflexivity].
  now destruct (buy_trade c l).
Qed.

Lemma sell_effect_price (c : Bot) (cp : Q) (l : GridLevel) :
  price (new_level (sell_effect c cp l)) = price l.
Proof.
  unfold sell_effect.
  now destruct (sell_due c cp l && negb (Qle_bool (base_position l) (eps c))).
Qed.

Lemma map_price_replace (pre post : list GridLevel) (l l' : GridLevel) :
  price l' = price l ->
  map price (pre ++ l' :: post) = map price (pre ++ l :: post).
Proof. intro E. rewrite !map_app. cbn [map]. now rewrite E. Qed.

Lemma tick_frame_step (s0 : Bot) (eff : GridLevel -> effect)
    (body : Bot -> GridLevel -> result (Bot * GridLevel)) :
  (forall l, price (new_level (eff l)) = price l) ->
  (forall s l s' l',
      same_config s0 s -> body s l = inr (s', l') ->
      same_config s0 s' /\ has_effect s (eff l) s' l') ->
  forall s l s' l' pre post,
    tick_frame s0 s (pre ++ l :: post) -> body s l = inr (s', l') ->
    tick_frame s0 s' (pre ++ l' :: post).
Proof.
  intros Hp Heff s l s' l' pre post (Hc & Hm & new & Hh) H.
  destruct (Heff _ _ _ _ Hc H) as (Hc' & -> & Hh' & _).
  split; [exact Hc'|]. split.
  - rewrite <- Hm. apply map_price_replace, Hp.
  - exists (new ++ records (eff l)). now rewrite Hh', Hh, app_assoc.
Qed.

(** X12: whatever the price and whether it returns or raises,
    [on_price_tick] never changes the configuration of the engine, never adds,
    removes or moves a level and never changes the price of a level; the
    trade records present before the call are still there, in the same order,
    in front of the ones the call appended. *)
Theorem X12_tick_keeps_ladder_and_history (s : Bot) (tick : Q) :
  same_config s (state_of (on_price_tick s tick)) /\
  map price (levels (state_of (on_price_tick s tick))) = map price (levels s) /\
  List.length (levels (state_of (on_price_tick s tick)))
  = List.length (levels s) /\
  exists new,
    trade_history (state_of (on_price_tick s tick)) = trade_history s ++ new.
Proof.
  assert (H : tick_frame s (state_of (on_price_tick s tick))
                (levels (state_of (on_price_tick s tick)))).
  { apply (tick_preserves (tick_frame s)).
    - intro cp. apply (tick_frame_step s (buy_effect s cp)).
      + apply buy_effect_price.
      + apply buy_body_effect.
    - intro cp. apply (tick_frame_step s (sell_effect s cp)).
      + apply sell_effect_price.
      + apply sell_body_effect.
    - intros x ls ls' (Hc & Hm & Hh).
      split; [now apply same_config_set_levels|]. split; assumption.
    - split; [apply same_config_refl|]. split; [reflexivity|].
      exists []. now rewrite app_nil_r. }
  destruct H as (Hc & Hm & Hh). repeat split; try apply Hc; try assumption.
  rewrite <- (length_map price), Hm. apply length_map.
Qed.

(** ** The balances cover the levels *)


Lemma neg_part_le (x : Q) : neg_part x <= x /\ neg_part x <= 0.
Proof.
  unfold neg_part. destruct (Qlt_bool x 0) eqn:E.
  - apply Qlt_bool_true in E. lra.
  - apply Qlt_bool_false in E. lra.
Qed.




Lemma Qsum_neg_nonpos {A : Type} (f : A -> Q) (l : list A) :
  Qsum (map (fun x => neg_part (f x)) l) <= 0.
Proof.
  unfold Qsum. induction l as [|x l IH]; cbn [map fold_right]; [lra|].
  pose proof (neg_part_le (f x)). lra.
Qed.














(** ** The errors a tick can raise *)







(** ** Where a tick leaves the levels *)





(** ** The trade records account for the balances *)









(** ** What is recorded, and what the last action tells *)






Lemma buy_body_action (e cp : Q) :
  forall s l s' l' pre post,
    eps s = e /\ Forall (action_ok e) (pre ++ l :: post) ->
    buy_body cp s l = inr (s', l') ->
    eps s' = e /\ Forall (action_ok e) (pre ++ l' :: post).
Proof.
  intros s l s' l' pre post [He F] H. subst e.
  unfold buy_body in H. destruct (buy_due s cp l).
  2:{ injection H as <- <-. now split. }
  apply _execute_buy_inv in H.
  destruct H as [[_ H]|(_ & _ & trade & _ & Hqty & H)].
  { injection H as -> ->. now split. }
  unfold bought in H. injection H as -> ->. split; [reflexivity|].
  eapply Forall_replace; [exact F|]. unfold action_ok. cbn.
  split; [auto|discriminate].
Qed.

Lemma sell_body_action (e cp : Q) :
  forall s l s' l' pre post,
    eps s = e /\ Forall (action_ok e) (pre ++ l :: post) ->
    sell_body cp s l = inr (s', l') ->
    eps s' = e /\ Forall (action_ok e) (pre ++ l' :: post).
Proof.
  intros s l s' l' pre post [He F] H. subst e.
  unfold sell_body in H. destruct (sell_due s cp l).
  2:{ injection H as <- <-. now split. }
  apply _execute_sell_inv in H.
  remember (sell_trade s l) as t eqn:Et. clear Et.
  destruct H as [[_ H]|(_ & _ & Hamt & H)].
  { injection H as -> ->. now split. }
  unfold sold in H. injection H as -> ->. split; [reflexivity|].
  eapply Forall_replace; [exact F|]. unfold action_ok. cbn.
  split; [discriminate|auto].
Qed.

(** X19: the last action of a level tells what it holds.  In every reachable
    state a level whose last action is a buy holds base, with a position
    above [eps], and a level whose last action is a sell holds quote, with a
    budget above [eps]; a level that never traded has no last action. *)
Theorem X19_last_action_tells_status (ratio : Q) (cfg s : Bot)
    (l : GridLevel) :
  reachable ratio cfg s -> In l (levels s) ->
  (last_action l = Some buy -> status l = base /\ eps s < base_position l) /\
  (last_action l = Some sell -> status l = quote /\ eps s < quote_budget l).
Proof.
  intros R Hin.
  assert (H : eps s = eps cfg /\ Forall (action_ok (eps cfg)) (levels s)).
  { clear Hin l.
    induction R as [s H|s tick s' _ IH H|s tick e s' _ IH H].
    - apply post_init_inv in H. destruct H as [_ ->].
      split; [reflexivity|]. unfold _build_levels. rewrite levels_set_levels.
      apply Forall_forall. intros l Hin. apply in_map_iff in Hin.
      destruct Hin as (p & <- & _). unfold make_level, action_ok.
      destruct (seeded_base cfg p); cbn; split; discriminate.
    - change s' with (state_of (Returned s')). rewrite <- H.
      apply (tick_preserves
               (fun x ls => eps x = eps cfg /\ Forall (action_ok (eps cfg)) ls)).
      + intro cp. apply buy_body_action.
      + intro cp. apply sell_body_action.
      + intros x ls ls' [E F]. now split.
      + exact IH.
    - change s' with (state_of (Raised e s')). rewrite <- H.
      apply (tick_preserves
               (fun x ls => eps x = eps cfg /\ Forall (action_ok (eps cfg)) ls)).
      + intro cp. apply buy_body_action.
      + intro cp. apply sell_body_action.
      + intros x ls ls' [E F]. now split.
      + exact IH. }
  destruct H as [E F]. rewrite E. rewrite Forall_forall in F. now apply F.
Qed.

Lemma X19_witness :
  status grid_top_after = base /\
  eps grid_after < base_position grid_top_after.
Proof.
  assert (R : reachable 2 cfg_grid grid_after).
  { apply (reach_tick 2 cfg_grid (built 2 cfg_grid) 250).
    - apply reach_init. reflexivity.
    - vm_compute. reflexivity. }
  assert (Hin : In grid_top_after (levels grid_after)).
  { vm_compute. right. right. left. reflexivity. }
  destruct (X19_last_action_tells_status 2 cfg_grid grid_after grid_top_after
              R Hin) as [H _].
  apply H. vm_compute. reflexivity.
Defined.
